(** * Shallow embedding of [packages/ai-jsx/src/react/jit-ui/mdx.tsx]

    The MDX hydration path of [MdxChatCompletion]: the AST walker
    [convertAstToComponent], the per-document [hydrateMDX] and the streaming
    loop of the async generator.

    Two collaborators live outside the module and are inputs of the model:
    - [compile] from [@mdx-js/mdx], together with the rehype plugin that
      captures the hast tree: a function from the MDX source to
      [Some tree] (the tree handed to the plugin) or [None] (compile threw);
    - the component table returned by [collectComponents]: a lookup
      function from the JS property key to a component handle. *)

From Stdlib Require Import String Ascii List Bool ZArith.
Import ListNotations.
Set Warnings "-register-all".
Open Scope string_scope.
Open Scope list_scope.
Open Scope bool_scope.

(** ** Data model *)

(** An attribute value of an [mdxJsx*Element] as mdast-util-mdx-jsx builds it:
    a string literal ([b='x']), [null] for a bare attribute ([b]), or an
    object [{type: 'mdxJsxAttributeValueExpression', value}] for [b={...}]. *)
Inductive AttrValue :=
| AVString (s : string)
| AVNull
| AVExpr (source : string).

Record Attr := mkAttr { attr_name : string; attr_value : AttrValue }.

(** [interface Node { type; tagName?; children?; name?; value?; attributes? }].
    [children] and [attributes] are the destructuring defaults ([= []]);
    [name = None] is the [null] name of a fragment [<>...</>]. *)
Inductive Node :=
| mkNode (type : string) (tagName : option string) (children : list Node)
         (name : option string) (value : option string)
         (attributes : list Attr).

(** A component handle, as stored in the table of [collectComponents]. *)
Definition Component := string.

(** The table: [components[key]], [None] when the entry is missing. *)
Definition Registry := string -> option Component.

(** A prop value: [attr.value === null ? true : attr.value]. *)
Inductive PropVal :=
| PTrue
| PStr (s : string)
| PObj (v : AttrValue).

(** The props object, as a JS object: keys in insertion order. *)
Definition Props := list (string * PropVal).

(** The React nodes the walker builds.
    - [Container kids]: [<div>{kids}</div>];
    - [RawText s]: a bare string child of a [<div>];
    - [Invocation c props kids]: [<Component {...props}>{kids}</Component>];
    - [Display items]: [<span>{[ast.value]}</span>] ([None] is [undefined]);
    - [LineBreak]: [<br />];
    - [Dropped]: [null]. *)
Inductive UiNode :=
| Container (kids : list UiNode)
| RawText (s : string)
| Invocation (c : Component) (props : Props) (kids : list UiNode)
| Display (items : list (option string))
| LineBreak
| Dropped.

(** Thrown errors. *)
Inductive Error :=
| ErrCompile (mdx : string)
| ErrNonTrivialProp (v : AttrValue)
| ErrUnhandledType (n : Node).

(** [<AI.React>{...}</AI.React>], the value of [hydrateMDX]. *)
Inductive Rendered := AIReact (u : UiNode).

(** Observable effects: calls of [compile] and logger calls. *)
Inductive Event :=
| EvCompile (mdx : string)
| EvWarnIgnored (component : option string) (message : string)
| EvWarnHydrating (hydrated : UiNode) (ast : Node)
| EvTraceYield (frame : string)
| EvTraceSkip (frame : string).

(** ** A result-and-log monad

    A computation returns a value or a thrown error, together with the
    events it performed; events that happened before a throw are kept. *)
Inductive result (A : Type) :=
| Ok (a : A)
| Err (e : Error).
Arguments Ok {A} a.
Arguments Err {A} e.

Definition M (A : Type) : Type := (result A * list Event)%type.

Definition ret {A} (a : A) : M A := (Ok a, []).
Definition throw {A} (e : Error) : M A := (Err e, []).
Definition emit (ev : Event) : M unit := (Ok tt, [ev]).

Definition bind {A B} (m : M A) (k : A -> M B) : M B :=
  match m with
  | (Ok a, l1) => let (r, l2) := k a in (r, l1 ++ l2)
  | (Err e, l1) => (Err e, l1)
  end.

Notation "x <- m ;; k" := (bind m (fun x => k))
  (at level 61, m at next level, right associativity).
Notation "m ;;; k" := (bind m (fun _ => k))
  (at level 61, right associativity).

(** ** Helpers of the walker *)

Definition newline : string := String (ascii_of_nat 10) EmptyString.
Definition dquote : string := String (ascii_of_nat 34) EmptyString.

(** JS truthiness of a walked child, as lodash's [_.compact] tests it:
    [null] and the empty string are falsy, every element object is truthy. *)
Definition truthy (u : UiNode) : bool :=
  match u with
  | Dropped => false
  | RawText s => negb (String.eqb s EmptyString)
  | _ => true
  end.

(** [_.compact]. *)
Definition compact (l : list UiNode) : list UiNode := filter truthy l.

(** Defining or overwriting the own property [k] of an object. *)
Fixpoint obj_put (k : string) (v : PropVal) (o : Props) : Props :=
  match o with
  | [] => [(k, v)]
  | (k', v') :: o' =>
      if String.eqb k k' then (k, v) :: o' else (k', v') :: obj_put k v o'
  end.

(** [acc[k] = v] on an object created by [{}]: the key [__proto__] reaches
    the [Object.prototype.__proto__] setter, which ignores a primitive value
    (a string or [true]) and otherwise only replaces the prototype; either way
    no own property is created, and [{...props}] copies own properties
    only. *)
Definition obj_set (k : string) (v : PropVal) (o : Props) : Props :=
  if String.eqb k "__proto__" then o else obj_put k v o.

(** [o[k]] for an own property [k]. *)
Fixpoint obj_get (k : string) (o : Props) : option PropVal :=
  match o with
  | [] => None
  | (k', v') :: o' => if String.eqb k k' then Some v' else obj_get k o'
  end.

(** [attr.value?.type] is truthy exactly for the expression object. *)
Definition has_type (v : AttrValue) : bool :=
  match v with AVExpr _ => true | _ => false end.

(** [attr.value === null ? true : attr.value]. *)
Definition prop_of (v : AttrValue) : PropVal :=
  match v with
  | AVNull => PTrue
  | AVString s => PStr s
  | AVExpr _ => PObj v
  end.

(** The body of the [attributes.reduce] callback. *)
Definition props_step (acc : Props) (attr : Attr) : M Props :=
  if has_type (attr_value attr) then throw (ErrNonTrivialProp (attr_value attr))
  else ret (obj_set (attr_name attr) (prop_of (attr_value attr)) acc).

(** [attributes.reduce(props_step, {})]. *)
Fixpoint reduce_props (acc : Props) (attrs : list Attr) : M Props :=
  match attrs with
  | [] => ret acc
  | a :: rest => acc' <- props_step acc a ;; reduce_props acc' rest
  end.

(** [componentName] as a property key and inside the template string. *)
Definition name_key (name : option string) : string :=
  match name with Some s => s | None => "null" end.

Definition ignored_message (name : option string) : string :=
  "Ignoring component " ++ dquote ++ name_key name ++ dquote ++
  " that wasn't present in the example. " ++
  "You may need to adjust the prompt or include an example of this component.".

(** ** [convertAstToComponentRec] *)

Section Walker.
Variable components : Registry.

Fixpoint convertAstToComponentRec (ast : Node) : M UiNode :=
  match ast with
  | mkNode type tagName children name value attributes =>
    let walked_children :=
      (fix go (l : list Node) : M (list UiNode) :=
         match l with
         | [] => ret []
         | x :: xs => y <- convertAstToComponentRec x ;; ys <- go xs ;; ret (y :: ys)
         end) children in
    if String.eqb type "root" then
      cs <- walked_children ;; ret (Container (compact cs))
    else if String.eqb type "element" then
      cs <- walked_children ;; ret (Container (RawText "element " :: compact cs))
    else if String.eqb type "mdxJsxTextElement" || String.eqb type "mdxJsxFlowElement" then
      props <- reduce_props [] attributes ;;
      match components (name_key name) with
      | None =>
          emit (EvWarnIgnored name (ignored_message name)) ;;; ret Dropped
      | Some c =>
          cs <- walked_children ;; ret (Invocation c props (compact cs))
      end
    else if String.eqb type "text" then
      match value with
      | Some v => if String.eqb v newline then ret LineBreak else ret (Display [Some v])
      | None => ret (Display [None])
      end
    else if String.eqb type "mdxjsEsm" then
      ret Dropped
    else throw (ErrUnhandledType ast)
  end.

(** [children.map(convertAstToComponentRec)], left to right. *)
Fixpoint walk_list (l : list Node) : M (list UiNode) :=
  match l with
  | [] => ret []
  | x :: xs => y <- convertAstToComponentRec x ;; ys <- walk_list xs ;; ret (y :: ys)
  end.

(** [convertAstToComponent(ast, components)]. *)
Definition convertAstToComponent (ast : Node) : M UiNode :=
  convertAstToComponentRec ast.

End Walker.

(** ** [hydrateMDX] and the generator [MdxChatCompletion] *)

(** The fragment [<>{`...`}</>] the component currently completes with. *)
Inductive CompletionNode := Fragment (text : string).

Definition completion_text : string :=
"pre text
<Card>
  * **Foo**: bar
  <Badge color='red'>Content</Badge>
  <Toggle title='my title' subtitle='my subtitle' />
</Card>
post text".

Definition completion : CompletionNode := Fragment completion_text.

(** The value the generator returns. *)
Inductive Ret :=
| RetCompletion (c : CompletionNode)
| RetHydrated (r : Rendered).

(** A run of the generator: the values it yields, the events it performs,
    and its return value or the error it rejects with. *)
Record Outcome := mkOutcome {
  yields : list Rendered;
  trace : list Event;
  returned : result Ret
}.

Section Coordinator.
Variable components : Registry.
(** [compile(mdx, {rehypePlugins: [rehypePlugin]})] followed by reading the
    captured [ast]: [Some tree] when compile resolves, [None] when it throws. *)
Variable compile : string -> option Node.

Definition hydrateMDX (mdx : string) : M Rendered :=
  emit (EvCompile mdx) ;;;
  match compile mdx with
  | None => throw (ErrCompile mdx)
  | Some ast =>
      hydrated <- convertAstToComponent components ast ;;
      emit (EvWarnHydrating hydrated ast) ;;;
      u <- convertAstToComponent components ast ;;
      ret (AIReact u)
  end.

(** One iteration of [for await (const frame of renderedCompletion)]:
    [try { yield hydrateMDX(frame, components); logger.trace(...) }
     catch { logger.trace(...) }]. *)
Definition frame_step (frame : string) : list Rendered * list Event :=
  match hydrateMDX frame with
  | (Ok r, evs) => ([r], evs ++ [EvTraceYield frame])
  | (Err _, evs) => ([], evs ++ [EvTraceSkip frame])
  end.

Fixpoint frames_loop (frames : list string) : list Rendered * list Event :=
  match frames with
  | [] => ([], [])
  | f :: fs =>
      let '(ys, evs) := frame_step f in
      let '(ys', evs') := frames_loop fs in
      (ys ++ ys', evs ++ evs')
  end.

(** [MdxChatCompletion({hydrate, ...})], where [render(completion)] streams
    [frames] and resolves to [final]. [hydrate] is [undefined] ([None]) or a
    boolean. *)
Definition MdxChatCompletion (hydrate : option bool) (frames : list string)
    (final : string) : Outcome :=
  if negb (match hydrate with Some b => b | None => false end) then
    mkOutcome [] [] (Ok (RetCompletion completion))
  else
    let '(ys, evs) := frames_loop frames in
    let '(r, evs') := hydrateMDX final in
    mkOutcome ys (evs ++ evs')
      (match r with Ok x => Ok (RetHydrated x) | Err e => Err e end).

End Coordinator.

(** ** Concrete inputs *)

(** A table holding [Badge] only. *)
Definition demo_components : Registry :=
  fun k => if String.eqb k "Badge" then Some "Badge" else None.

Definition text_node (v : string) : Node := mkNode "text" None [] None (Some v) [].

Definition root_node (kids : list Node) : Node := mkNode "root" None kids None None [].

Definition flow_element (name : string) (attrs : list Attr) (kids : list Node) : Node :=
  mkNode "mdxJsxFlowElement" None kids (Some name) None attrs.

(** A stand-in for [compile]: three sources parse, everything else throws.
    ["{x}"] gives an [mdxFlowExpression] node, a type the walker does not handle. *)
Definition demo_compile (mdx : string) : option Node :=
  if String.eqb mdx "<Badge color='red'>Hi</Badge>" then
    Some (root_node [flow_element "Badge" [mkAttr "color" (AVString "red")] [text_node "Hi"]])
  else if String.eqb mdx "{x}" then
    Some (root_node [mkNode "mdxFlowExpression" None [] None (Some "x") []])
  else if String.eqb mdx "<Unknown foo={1} />" then
    Some (root_node [flow_element "Unknown" [mkAttr "foo" (AVExpr "1")] []])
  else None.

(** A document holding one tag missing from [demo_components]. *)
Definition unknown_doc : Node := root_node [flow_element "Unknown" [] []].

(** ** Reading the props back

    [literal a]: the value of [a] is not an expression object, so the
    [reduce] callback does not throw on it. [last_attr_value k attrs]: the
    value of the last attribute named [k]. *)
Definition literal (a : Attr) : Prop := has_type (attr_value a) = false.

Fixpoint last_attr_value (k : string) (attrs : list Attr) : option AttrValue :=
  match attrs with
  | [] => None
  | a :: rest =>
      match last_attr_value k rest with
      | Some v => Some v
      | None => if String.eqb (attr_name a) k then Some (attr_value a) else None
      end
  end.

(** The event logged for a component missing from the table. *)
Definition ignored_event (name : option string) : Event :=
  EvWarnIgnored name (ignored_message name).

(** The node types [convertAstToComponentRec] has a [case] for. *)
Definition walker_types : list string :=
  ["root"; "element"; "mdxJsxTextElement"; "mdxJsxFlowElement"; "text"; "mdxjsEsm"].

(** ** Walker summaries

    [walk_safe n]: the walk of [n] does not throw. It throws at a node of an
    unhandled type, and at an [mdxJsx*Element] with an expression-valued
    attribute; the children of a tag missing from the table are not walked.
    [expected_warnings n]: the warnings the walk logs, one per tag missing
    from the table and not inside another such tag, in document order. *)
Definition is_component_type (ty : string) : bool :=
  String.eqb ty "mdxJsxTextElement" || String.eqb ty "mdxJsxFlowElement".

Fixpoint walk_safe (reg : Registry) (n : Node) : bool :=
  match n with
  | mkNode ty tg ch nm vl attrs =>
    let kids_safe :=
      (fix go (l : list Node) : bool :=
         match l with [] => true | x :: xs => walk_safe reg x && go xs end) ch in
    if String.eqb ty "root" || String.eqb ty "element" then kids_safe
    else if is_component_type ty then
      forallb (fun a => negb (has_type (attr_value a))) attrs &&
      match reg (name_key nm) with None => true | Some _ => kids_safe end
    else String.eqb ty "text" || String.eqb ty "mdxjsEsm"
  end.

Fixpoint expected_warnings (reg : Registry) (n : Node) : list Event :=
  match n with
  | mkNode ty tg ch nm vl attrs =>
    let kids :=
      (fix go (l : list Node) : list Event :=
         match l with [] => [] | x :: xs => expected_warnings reg x ++ go xs end) ch in
    if String.eqb ty "root" || String.eqb ty "element" then kids
    else if is_component_type ty then
      match reg (name_key nm) with None => [ignored_event nm] | Some _ => kids end
    else []
  end.

(** No [Container] or [Invocation] of a tree has a [null] slot. *)
Fixpoint slots_non_null (u : UiNode) : bool :=
  match u with
  | Container ks | Invocation _ _ ks =>
      (fix go (l : list UiNode) : bool :=
         match l with
         | [] => true
         | k :: rest =>
             match k with Dropped => false | _ => true end && slots_non_null k && go rest
         end) ks
  | _ => true
  end.

(** Induction over [Node] through its [children]. *)
Section NodeInd.
Variable P : Node -> Prop.
Hypothesis Hnode : forall ty tg ch nm vl attrs, Forall P ch -> P (mkNode ty tg ch nm vl attrs).

Fixpoint node_ind' (n : Node) : P n :=
  match n with
  | mkNode ty tg ch nm vl attrs =>
      Hnode ty tg ch nm vl attrs
        ((fix go (l : list Node) : Forall P l :=
            match l with
            | [] => Forall_nil P
            | x :: xs => Forall_cons x (node_ind' x) (go xs)
            end) ch)
  end.
End NodeInd.

Definition is_compile_event (e : Event) : bool :=
  match e with EvCompile _ => true | _ => false end.

Definition is_trace_event (e : Event) : bool :=
  match e with EvTraceYield _ | EvTraceSkip _ => true | _ => false end.

(** ** [IsomorphicFixieClient]

    [fetch] and [new URL(...)] are platform collaborators and are inputs of
    the model. A JS value is modelled with integral numbers. *)
Module Fixie.
Local Open Scope string_scope.

Inductive JsVal :=
| JUndef
| JNull
| JBool (b : bool)
| JNum (z : Z)
| JStr (s : string)
| JArr (items : list JsVal)
| JObj (fields : list (string * JsVal)).

(** JS truthiness ([if (bodyData)], [if (!apiKeyToUse)]). *)
Definition js_truthy (v : JsVal) : bool :=
  match v with
  | JUndef | JNull => false
  | JBool b => b
  | JNum z => negb (Z.eqb z 0)
  | JStr s => negb (String.eqb s EmptyString)
  | JArr _ | JObj _ => true
  end.

(** The JSON document [JSON.stringify] encodes. *)
Inductive Json :=
| JsonNull
| JsonBool (b : bool)
| JsonNum (z : Z)
| JsonStr (s : string)
| JsonArr (items : list Json)
| JsonObj (fields : list (string * Json)).

(** [JSON.stringify(v)]: [undefined] at the top gives [undefined], an
    [undefined] array item becomes [null], and an [undefined] object field is
    left out. *)
Fixpoint stringify (v : JsVal) : option Json :=
  match v with
  | JUndef => None
  | JNull => Some JsonNull
  | JBool b => Some (JsonBool b)
  | JNum z => Some (JsonNum z)
  | JStr s => Some (JsonStr s)
  | JArr items =>
      Some (JsonArr ((fix go (l : list JsVal) : list Json :=
                        match l with
                        | [] => []
                        | x :: xs =>
                            match stringify x with Some j => j | None => JsonNull end :: go xs
                        end) items))
  | JObj fields =>
      Some (JsonObj ((fix go (l : list (string * JsVal)) : list (string * Json) :=
                        match l with
                        | [] => []
                        | (k, x) :: xs =>
                            match stringify x with
                            | Some j => (k, j) :: go xs
                            | None => go xs
                            end
                        end) fields))
  end.

(** [string | undefined], [number | undefined], [boolean | undefined] and
    [string[] | undefined] arguments as JS values. *)
Definition opt_str (o : option string) : JsVal :=
  match o with Some s => JStr s | None => JUndef end.
Definition opt_num (o : option Z) : JsVal :=
  match o with Some z => JNum z | None => JUndef end.
Definition opt_bool (o : option bool) : JsVal :=
  match o with Some b => JBool b | None => JUndef end.
Definition opt_strs (o : option (list string)) : JsVal :=
  match o with Some l => JArr (map JStr l) | None => JUndef end.

(** [`${x}`] for [x : string | undefined]. *)
Definition template_opt (o : option string) : string :=
  match o with Some s => s | None => "undefined" end.

Record Client := mkClient { url : string; apiKey : option string }.

Inductive ClientError :=
| MissingApiKey (message : string)
| FetchRejected
| HttpFailure (message : string)
| JsonRejected
| InvalidUrl (input : string).

Inductive outcome (A : Type) :=
| Resolved (a : A)
| Rejected (e : ClientError).
Arguments Resolved {A} a.
Arguments Rejected {A} e.

Record FetchRequest := mkRequest {
  req_url : string;
  req_method : string;
  req_headers : list (string * string);
  req_body : option Json
}.

(** What [fetch] resolves to: [res.ok], [res.statusText], and [res.json()]
    ([None] when it rejects). *)
Record Response := mkResponse {
  res_ok : bool;
  res_statusText : string;
  res_json : option JsVal
}.

Inductive ClientEvent :=
| ConsoleLog (message : string) (data : JsVal)
| Fetch (req : FetchRequest).

Definition missing_key_message : string :=
  "You must pass apiKey to the constructor, or set the FIXIE_API_KEY environment variable. The API key can be found at: https://console.fixie.ai/profile".

(** [static Create(url, apiKey?)], where [env_key] is
    [process.env.FIXIE_API_KEY] (read only when [apiKey] is [undefined]). *)
Definition Create (env_key : option string) (u : string) (k : option string) : outcome Client :=
  let apiKeyToUse := match k with Some s => Some s | None => env_key end in
  if negb (js_truthy (opt_str apiKeyToUse)) then Rejected (MissingApiKey missing_key_message)
  else Resolved (mkClient u k).

Definition CreateWithoutApiKey (u : string) : Client := mkClient u None.

(** [const debug = typeof process !== 'undefined' && process.env?.FIXIE_DEBUG === 'true'],
    where [None] is the absence of [process]. *)
Definition debug_of (process_env_FIXIE_DEBUG : option (option string)) : bool :=
  match process_env_FIXIE_DEBUG with
  | Some (Some s) => String.eqb s "true"
  | _ => false
  end.

Section Requests.
Variable debug : bool.
(** [fetch(url, init)]: [None] when the promise rejects. *)
Variable fetch : FetchRequest -> option Response.
(** [new URL(u)] with [search] and [hash] cleared, then [toString()];
    [None] when the constructor throws. *)
Variable sanitize_url : string -> option string.

(** [async request(path, bodyData?)]; [JUndef] is an absent [bodyData]. *)
Definition request (c : Client) (path : string) (bodyData : JsVal)
    : outcome JsVal * list ClientEvent :=
  let logs :=
    if debug then [ConsoleLog ("[Fixie request] " ++ url c ++ path) bodyData] else [] in
  let req :=
    if js_truthy bodyData then
      mkRequest (url c ++ path) "POST"
        [("Authorization", "Bearer " ++ template_opt (apiKey c));
         ("Content-Type", "application/json")]
        (stringify bodyData)
    else
      mkRequest (url c ++ path) "GET"
        [("Authorization", "Bearer " ++ template_opt (apiKey c))] None in
  let evs := (logs ++ [Fetch req])%list in
  match fetch req with
  | None => (Rejected FetchRejected, evs)
  | Some res =>
      if negb (res_ok res) then
        (Rejected (HttpFailure ("Failed to access Fixie API " ++ url c ++ path ++ ": " ++
                                res_statusText res)), evs)
      else
        match res_json res with
        | Some v => (Resolved v, evs)
        | None => (Rejected JsonRejected, evs)
        end
  end.

Definition userInfo (c : Client) := request c "/api/user" JUndef.

Definition listCorpora (c : Client) := request c "/api/v1/corpora" JUndef.

Definition getCorpus (c : Client) (corpusId : string) :=
  request c ("/api/v1/corpora/" ++ corpusId) JUndef.

Definition createCorpus (c : Client) (name description : option string) :=
  request c "/api/v1/corpora"
    (JObj [("corpus", JObj [("display_name", opt_str name);
                            ("description", opt_str description)])]).

Definition queryCorpus (c : Client) (corpusId query : string) (maxChunks : option Z) :=
  request c ("/api/v1/corpora/" ++ corpusId ++ ":query")
    (JObj [("corpus_id", JStr corpusId); ("query", JStr query);
           ("max_chunks", opt_num maxChunks)]).

Definition listCorpusSources (c : Client) (corpusId : string) :=
  request c ("/api/v1/corpora/" ++ corpusId ++ "/sources") JUndef.

Definition getCorpusSource (c : Client) (corpusId sourceId : string) :=
  request c ("/api/v1/corpora/" ++ corpusId ++ "/sources/" ++ sourceId) JUndef.

(** [startUrls.map(...)]: throws at the first URL [new URL] rejects. *)
Fixpoint sanitize_all (urls : list string) : outcome (list string) :=
  match urls with
  | [] => Resolved []
  | u :: us =>
      match sanitize_url u with
      | None => Rejected (InvalidUrl u)
      | Some u' =>
          match sanitize_all us with
          | Resolved l => Resolved (u' :: l)
          | Rejected e => Rejected e
          end
      end
  end.

(** [addCorpusSource]; it is not [async], so a throwing [new URL] throws
    before [request] is entered. *)
Definition addCorpusSource (c : Client) (corpusId : string) (startUrls : list string)
    (includeGlobs excludeGlobs : option (list string)) (maxDocuments maxDepth : option Z)
    (description : option string) : outcome JsVal * list ClientEvent :=
  match sanitize_all startUrls with
  | Rejected e => (Rejected e, [])
  | Resolved sanitizedStartUrls =>
      request c ("/api/v1/corpora/" ++ corpusId ++ "/sources")
        (JObj [("corpus_id", JStr corpusId);
               ("source",
                JObj [("description", opt_str description);
                      ("corpus_id", JStr corpusId);
                      ("load_spec",
                       JObj [("max_documents", opt_num maxDocuments);
                             ("web",
                              JObj [("start_urls", JArr (map JStr sanitizedStartUrls));
                                    ("max_depth", opt_num maxDepth);
                                    ("include_glob_patterns", opt_strs includeGlobs);
                                    ("exclude_glob_patterns", opt_strs excludeGlobs)])])])])
  end.

Definition refreshCorpusSource (c : Client) (corpusId sourceId : string) (force : option bool) :=
  request c ("/api/v1/corpora/" ++ corpusId ++ "/sources/" ++ sourceId ++ ":refresh")
    (JObj [("force", opt_bool force)]).

Definition listCorpusSourceJobs (c : Client) (corpusId sourceId : string) :=
  request c ("/api/v1/corpora/" ++ corpusId ++ "/sources/" ++ sourceId ++ "/jobs") JUndef.

Definition getCorpusSourceJob (c : Client) (corpusId sourceId jobId : string) :=
  request c ("/api/v1/corpora/" ++ corpusId ++ "/sources/" ++ sourceId ++ "/jobs/" ++ jobId)
    JUndef.

Definition listCorpusDocs (c : Client) (corpusId : string) :=
  request c ("/api/v1/corpora/" ++ corpusId ++ "/documents") JUndef.

Definition getCorpusDoc (c : Client) (corpusId docId : string) :=
  request c ("/api/v1/corpora/" ++ corpusId ++ "/documents/" ++ docId) JUndef.

End Requests.

(** The [Fetch] events of a run. *)
Definition fetches (evs : list ClientEvent) : list FetchRequest :=
  flat_map (fun e => match e with Fetch r => [r] | _ => [] end) evs.

(** The [ConsoleLog] events of a run. *)
Definition console_logs (evs : list ClientEvent) : list ClientEvent :=
  filter (fun e => match e with ConsoleLog _ _ => true | _ => false end) evs.

(** A field [k] of an encoded object, present when the value is defined. *)
Definition str_field (k : string) (o : option string) : list (string * Json) :=
  match o with Some v => [(k, JsonStr v)] | None => [] end.

(** The value at a path of object keys in an encoded document. *)
Fixpoint json_at (p : list string) (j : Json) : option Json :=
  match p with
  | [] => Some j
  | k :: p' =>
      match j with
      | JsonObj fs =>
          match find (fun kv => String.eqb (fst kv) k) fs with
          | Some (_, j') => json_at p' j'
          | None => None
          end
      | _ => None
      end
  end.

(** A run that sends exactly one bodiless GET carrying only the
    [Authorization] header. *)
Definition only_get (c : Client) (evs : list ClientEvent) : Prop :=
  exists r, fetches evs = [r] /\ req_method r = "GET" /\ req_body r = None /\
    req_headers r = [("Authorization", "Bearer " ++ template_opt (apiKey c))].

(** A [new URL] stand-in that accepts only [https://] URLs without a query. *)
Definition demo_sanitize (s : string) : option string :=
  if String.prefix "https://" s then Some s else None.

End Fixie.

(** ** Properties of the model *)

Lemma bind_ret_l {A B} (a : A) (k : A -> M B) : bind (ret a) k = k a.
Proof. unfold bind, ret. simpl. destruct (k a). reflexivity. Qed.

Lemma bind_ret_r {A} (m : M A) : bind m ret = m.
Proof. destruct m as [[a|e] l]; simpl; rewrite ?app_nil_r; reflexivity. Qed.

Lemma bind_assoc {A B C} (m : M A) (f : A -> M B) (g : B -> M C) :
  bind (bind m f) g = bind m (fun x => bind (f x) g).
Proof.
  destruct m as [[a|e] l1]; simpl; [|reflexivity].
  destruct (f a) as [[b|e] l2]; simpl; [|reflexivity].
  destruct (g b) as [r l3]. rewrite app_assoc. reflexivity.
Qed.

Lemma convertAstToComponentRec_eq reg ty tg ch nm vl at' :
  convertAstToComponentRec reg (mkNode ty tg ch nm vl at') =
    if String.eqb ty "root" then
      cs <- walk_list reg ch ;; ret (Container (compact cs))
    else if String.eqb ty "element" then
      cs <- walk_list reg ch ;; ret (Container (RawText "element " :: compact cs))
    else if String.eqb ty "mdxJsxTextElement" || String.eqb ty "mdxJsxFlowElement" then
      props <- reduce_props [] at' ;;
      match reg (name_key nm) with
      | None => emit (EvWarnIgnored nm (ignored_message nm)) ;;; ret Dropped
      | Some c => cs <- walk_list reg ch ;; ret (Invocation c props (compact cs))
      end
    else if String.eqb ty "text" then
      match vl with
      | Some v => if String.eqb v newline then ret LineBreak else ret (Display [Some v])
      | None => ret (Display [None])
      end
    else if String.eqb ty "mdxjsEsm" then ret Dropped
    else throw (ErrUnhandledType (mkNode ty tg ch nm vl at')).
Proof. reflexivity. Qed.

(** The walker never returns a bare string, so [_.compact] on walked
    children removes exactly the [null]s. *)
Lemma walk_not_rawtext reg n u :
  fst (convertAstToComponentRec reg n) = Ok u -> forall s, u <> RawText s.
Proof.
  destruct n as [ty tg ch nm vl at']. rewrite convertAstToComponentRec_eq.
  intros H s ->.
  destruct (String.eqb ty "root");
    [destruct (walk_list reg ch) as [[?|?] ?]; simpl in H; discriminate|].
  destruct (String.eqb ty "element");
    [destruct (walk_list reg ch) as [[?|?] ?]; simpl in H; discriminate|].
  destruct (_ || _).
  - destruct (reduce_props [] at') as [[p|?] ?]; simpl in H; [|discriminate].
    destruct (reg (name_key nm)).
    + destruct (walk_list reg ch) as [[?|?] ?]; simpl in H; discriminate.
    + simpl in H. discriminate.
  - destruct (String.eqb ty "text").
    + destruct vl as [v|]; [destruct (String.eqb v newline)|]; simpl in H; discriminate.
    + destruct (String.eqb ty "mdxjsEsm"); simpl in H; discriminate.
Qed.

Definition not_dropped (u : UiNode) : bool :=
  match u with Dropped => false | _ => true end.

Lemma walk_list_compact reg l cs :
  fst (walk_list reg l) = Ok cs -> compact cs = filter not_dropped cs.
Proof.
  revert cs. induction l as [|x xs IH]; intros cs H.
  - simpl in H. injection H as <-. reflexivity.
  - simpl in H.
    destruct (convertAstToComponentRec reg x) as [[y|e] l1] eqn:Hx; simpl in H;
      [|discriminate].
    destruct (walk_list reg xs) as [[ys|e] l2] eqn:Hxs; simpl in H; [|discriminate].
    injection H as <-.
    assert (Hy : forall s, y <> RawText s)
      by (apply (walk_not_rawtext reg x); rewrite Hx; reflexivity).
    unfold compact in *. simpl. rewrite (IH ys eq_refl).
    destruct y; try reflexivity. exfalso. exact (Hy s eq_refl).
Qed.

Lemma walk_list_app reg l1 l2 :
  walk_list reg (l1 ++ l2) =
    (xs <- walk_list reg l1 ;; ys <- walk_list reg l2 ;; ret (xs ++ ys)).
Proof.
  induction l1 as [|x xs IH]; simpl.
  - destruct (walk_list reg l2) as [[zs|e] lb]; simpl; rewrite ?app_nil_r; reflexivity.
  - rewrite IH.
    destruct (convertAstToComponentRec reg x) as [[y|e] l]; simpl; [|reflexivity].
    destruct (walk_list reg xs) as [[ys|e] la]; simpl; [|rewrite ?app_nil_r; reflexivity].
    destruct (walk_list reg l2) as [[zs|e] lb]; simpl; rewrite ?app_nil_r, ?app_assoc;
      reflexivity.
Qed.

Lemma hydrateMDX_fst reg compile mdx :
  fst (hydrateMDX reg compile mdx) =
    match compile mdx with
    | None => Err (ErrCompile mdx)
    | Some ast =>
        match fst (convertAstToComponent reg ast) with
        | Ok u => Ok (AIReact u)
        | Err e => Err e
        end
    end.
Proof.
  unfold hydrateMDX. simpl.
  destruct (compile mdx) as [ast|]; simpl; [|reflexivity].
  destruct (convertAstToComponent reg ast) as [[u|e] l] eqn:Hw; simpl; reflexivity.
Qed.

Lemma frames_loop_app reg compile l1 l2 :
  frames_loop reg compile (l1 ++ l2) =
    (fst (frames_loop reg compile l1) ++ fst (frames_loop reg compile l2),
     snd (frames_loop reg compile l1) ++ snd (frames_loop reg compile l2)).
Proof.
  induction l1 as [|f fs IH]; simpl.
  - destruct (frames_loop reg compile l2). reflexivity.
  - rewrite IH. destruct (frame_step reg compile f) as [ys evs].
    destruct (frames_loop reg compile fs) as [ys' evs']. simpl.
    rewrite !app_assoc. reflexivity.
Qed.

(** C6: a [text] node walks to [LineBreak] exactly when its value is the
    one-character string made of a newline; any other value [v] walks to
    [Display [v]], the value wrapped in a one-element array, and the walk
    logs nothing. *)
Theorem text_node_conversion reg tg ch nm at' v :
  convertAstToComponentRec reg (mkNode "text" tg ch nm (Some v) at') =
    ret (if String.eqb v newline then LineBreak else Display [Some v]) /\
  (fst (convertAstToComponentRec reg (mkNode "text" tg ch nm (Some v) at')) = Ok LineBreak
     <-> v = newline).
Proof.
  rewrite convertAstToComponentRec_eq. simpl. split.
  - destruct (String.eqb v newline); reflexivity.
  - destruct (String.eqb_spec v newline) as [->|Hne]; simpl.
    + split; reflexivity.
    + split; [discriminate | intros ->; contradiction].
Qed.

(** Scenario D of the spec. *)
Example text_scenario_d :
  convertAstToComponentRec demo_components (text_node newline) = ret LineBreak /\
  convertAstToComponentRec demo_components (text_node "hello") = ret (Display [Some "hello"]) /\
  convertAstToComponentRec demo_components (text_node ("a" ++ newline)%string)
    = ret (Display [Some ("a" ++ newline)%string]).
Proof. repeat split; reflexivity. Qed.

(** C7: a [root] node walks to a [Container] over its walked children, in
    document order, with every [Dropped] child filtered out; its walk fails
    exactly when a child's walk fails. An [mdxjsEsm] node (an import) walks
    to [Dropped] and logs nothing. *)
Theorem root_and_import_conversion reg tg ch nm vl at' :
  convertAstToComponentRec reg (mkNode "root" tg ch nm vl at') =
    (cs <- walk_list reg ch ;; ret (Container (filter not_dropped cs))) /\
  convertAstToComponentRec reg (mkNode "mdxjsEsm" tg ch nm vl at') = ret Dropped.
Proof.
  rewrite !convertAstToComponentRec_eq. simpl. split; [|reflexivity].
  destruct (walk_list reg ch) as [[cs|e] l] eqn:Hw; simpl; [|reflexivity].
  rewrite (walk_list_compact reg ch cs) by (rewrite Hw; reflexivity).
  reflexivity.
Qed.

(** C3, as the code has it: the tag name of a plain [element] node is not
    kept. Two elements with the same children and different tags walk to the
    same node: a [Container] whose first slot is the text ["element "]. *)
Lemma element_tag_not_preserved :
  fst (convertAstToComponentRec demo_components (mkNode "element" (Some "p") [] None None []))
    = Ok (Container [RawText "element "]) /\
  fst (convertAstToComponentRec demo_components (mkNode "element" (Some "h1") [] None None []))
    = Ok (Container [RawText "element "]) /\
  fst (convertAstToComponentRec demo_components
         (mkNode "element" (Some "Badge") [] (Some "Badge") None []))
    = Ok (Container [RawText "element "]).
Proof. repeat split; reflexivity. Qed.

(** C3 (amended): an [element] node walks to a [Container] whose first slot is
    the fixed text ["element "] followed by its walked, compacted children.
    Neither the tag name, nor the name or attributes fields, nor the table
    is consulted for the node itself: the result is the same for every tag. *)
Theorem element_conversion reg tg ch nm vl at' :
  convertAstToComponentRec reg (mkNode "element" tg ch nm vl at') =
    (cs <- walk_list reg ch ;; ret (Container (RawText "element " :: compact cs))) /\
  (forall tg' nm' vl' at'',
     convertAstToComponentRec reg (mkNode "element" tg' ch nm' vl' at'') =
     convertAstToComponentRec reg (mkNode "element" tg ch nm vl at')).
Proof.
  split.
  - rewrite convertAstToComponentRec_eq. reflexivity.
  - intros. rewrite !convertAstToComponentRec_eq. reflexivity.
Qed.

(** C10: when [hydrate] is [undefined] or [false], the generator yields
    nothing, performs no event (no [compile], no walk, no log) and returns
    the completion fragment itself, whatever the stream would have been. *)
Theorem no_hydrate_returns_completion reg compile frames final :
  MdxChatCompletion reg compile None frames final
    = mkOutcome [] [] (Ok (RetCompletion completion)) /\
  MdxChatCompletion reg compile (Some false) frames final
    = mkOutcome [] [] (Ok (RetCompletion completion)).
Proof. split; reflexivity. Qed.

(** C1: with [hydrate], the generator's return value is [compile] and walk
    of the final document: the walked tree when both succeed, and the error
    of [compile] or of the walk otherwise, which rejects the generator. It
    depends on the final document only, not on how many intermediate frames
    hydrated. *)
Lemma mdx_returned reg compile frames final :
  returned (MdxChatCompletion reg compile (Some true) frames final) =
    match compile final with
    | None => Err (ErrCompile final)
    | Some ast =>
        match fst (convertAstToComponent reg ast) with
        | Ok u => Ok (RetHydrated (AIReact u))
        | Err e => Err e
        end
    end.
Proof.
  unfold MdxChatCompletion. simpl.
  destruct (frames_loop reg compile frames) as [ys evs].
  pose proof (hydrateMDX_fst reg compile final) as H.
  destruct (hydrateMDX reg compile final) as [r evs']. simpl in *. subst r.
  destruct (compile final) as [ast|]; [|reflexivity].
  destruct (fst (convertAstToComponent reg ast)); reflexivity.
Qed.

Lemma mdx_yields reg compile frames final :
  yields (MdxChatCompletion reg compile (Some true) frames final) =
    flat_map (fun f => fst (frame_step reg compile f)) frames.
Proof.
  unfold MdxChatCompletion. simpl.
  assert (H : fst (frames_loop reg compile frames)
              = flat_map (fun f => fst (frame_step reg compile f)) frames).
  { induction frames as [|f fs IH]; [reflexivity|]. simpl.
    destruct (frame_step reg compile f) as [ys evs].
    destruct (frames_loop reg compile fs) as [ys' evs']. simpl in *. rewrite IH. reflexivity. }
  destruct (frames_loop reg compile frames) as [ys evs].
  destruct (hydrateMDX reg compile final). exact H.
Qed.

Lemma frame_step_yields reg compile f :
  fst (frame_step reg compile f) =
    match fst (hydrateMDX reg compile f) with Ok r => [r] | Err _ => [] end.
Proof.
  unfold frame_step. destruct (hydrateMDX reg compile f) as [[r|e] evs]; reflexivity.
Qed.

Theorem final_document_returned reg compile frames final :
  returned (MdxChatCompletion reg compile (Some true) frames final) =
    match compile final with
    | None => Err (ErrCompile final)
    | Some ast =>
        match fst (convertAstToComponent reg ast) with
        | Ok u => Ok (RetHydrated (AIReact u))
        | Err e => Err e
        end
    end.
Proof. apply mdx_returned. Qed.

Lemma obj_get_put k k' v o :
  obj_get k (obj_put k' v o) = if String.eqb k k' then Some v else obj_get k o.
Proof.
  induction o as [|[k0 v0] o' IH]; simpl.
  - destruct (String.eqb k k'); reflexivity.
  - destruct (String.eqb_spec k' k0) as [<-|Hne]; simpl.
    + destruct (String.eqb k k'); reflexivity.
    + rewrite IH. destruct (String.eqb_spec k k0) as [->|]; [|reflexivity].
      destruct (String.eqb_spec k0 k') as [->|]; [contradiction|reflexivity].
Qed.

Lemma obj_get_set k k' v o :
  obj_get k (obj_set k' v o) =
    if String.eqb k' "__proto__" then obj_get k o
    else if String.eqb k k' then Some v else obj_get k o.
Proof. unfold obj_set. destruct (String.eqb k' "__proto__"); [reflexivity|apply obj_get_put]. Qed.

Definition set_attr (acc : Props) (a : Attr) : Props :=
  obj_set (attr_name a) (prop_of (attr_value a)) acc.

Lemma reduce_props_literal acc attrs :
  Forall literal attrs -> reduce_props acc attrs = ret (fold_left set_attr attrs acc).
Proof.
  revert acc. induction attrs as [|a rest IH]; intros acc H; [reflexivity|].
  inversion H as [|? ? Ha Hrest]; subst. simpl.
  unfold props_step, literal in *. rewrite Ha. rewrite bind_ret_l. apply IH, Hrest.
Qed.

Lemma reduce_props_expression acc pre k src post :
  Forall literal pre ->
  reduce_props acc (pre ++ mkAttr k (AVExpr src) :: post) = throw (ErrNonTrivialProp (AVExpr src)).
Proof.
  revert acc. induction pre as [|a rest IH]; intros acc H; [reflexivity|].
  inversion H as [|? ? Ha Hrest]; subst. simpl.
  unfold props_step, literal in *. rewrite Ha. rewrite bind_ret_l. apply IH, Hrest.
Qed.

Lemma obj_get_fold k attrs acc :
  k <> "__proto__" ->
  obj_get k (fold_left set_attr attrs acc) =
    match last_attr_value k attrs with
    | Some v => Some (prop_of v)
    | None => obj_get k acc
    end.
Proof.
  intros Hk. revert acc. induction attrs as [|a rest IH]; intros acc; [reflexivity|].
  simpl. rewrite IH. destruct (last_attr_value k rest); [reflexivity|].
  unfold set_attr. rewrite obj_get_set.
  destruct (String.eqb_spec k (attr_name a)) as [->|Hne].
  - rewrite String.eqb_refl.
    destruct (String.eqb_spec (attr_name a) "__proto__"); [contradiction|reflexivity].
  - destruct (String.eqb_spec (attr_name a) k) as [He|]; [symmetry in He; contradiction|].
    destruct (String.eqb (attr_name a) "__proto__"); reflexivity.
Qed.

Lemma obj_get_fold_proto attrs acc :
  obj_get "__proto__" (fold_left set_attr attrs acc) = obj_get "__proto__" acc.
Proof.
  revert acc. induction attrs as [|a rest IH]; intros acc; [reflexivity|].
  simpl. rewrite IH. unfold set_attr. rewrite obj_get_set.
  destruct (String.eqb_spec (attr_name a) "__proto__") as [He|Hne]; [reflexivity|].
  destruct (String.eqb_spec "__proto__" (attr_name a)) as [He|]; [symmetry in He; contradiction|reflexivity].
Qed.

Ltac component_type Hty :=
  destruct Hty as [->| ->]; rewrite convertAstToComponentRec_eq; simpl.

(** C4, as the code has it: props are a JS object filled in attribute
    order, so of two attributes with the same name the first one does not
    map to its value; the later one overwrites it. And an attribute named
    [__proto__] maps to no prop at all. *)
Lemma duplicate_attribute_overwritten :
  fst (convertAstToComponentRec demo_components
         (flow_element "Badge" [mkAttr "x" (AVString "1"); mkAttr "x" (AVString "2")] []))
    = Ok (Invocation "Badge" [("x", PStr "2")] []) /\
  obj_get "x" [("x", PStr "2")] <> Some (PStr "1") /\
  fst (convertAstToComponentRec demo_components
         (flow_element "Badge" [mkAttr "__proto__" (AVString "p")] []))
    = Ok (Invocation "Badge" [] []).
Proof. split; [reflexivity | split; [discriminate | reflexivity]]. Qed.

(** C4 (amended): for an [mdxJsxTextElement] or [mdxJsxFlowElement] whose
    name is in the table, an expression-valued attribute makes the walk throw
    the "non-trivial prop" error (nothing logged, children not walked);
    otherwise the node walks to an [Invocation] of the component with its
    walked, compacted children, and the props map every attribute name other
    than [__proto__] to the value of the last attribute of that name: a string
    literal to itself, a bare attribute to [true]; [__proto__] is no prop. *)
Theorem registered_component_conversion reg ty tg ch nm vl attrs c
  (Hty : ty = "mdxJsxTextElement" \/ ty = "mdxJsxFlowElement")
  (Hreg : reg (name_key nm) = Some c) :
  (forall pre k src post,
     attrs = pre ++ mkAttr k (AVExpr src) :: post -> Forall literal pre ->
     convertAstToComponentRec reg (mkNode ty tg ch nm vl attrs)
       = throw (ErrNonTrivialProp (AVExpr src))) /\
  (Forall literal attrs ->
   exists props,
     convertAstToComponentRec reg (mkNode ty tg ch nm vl attrs)
       = (cs <- walk_list reg ch ;; ret (Invocation c props (compact cs))) /\
     forall k, obj_get k props =
       if String.eqb k "__proto__" then None
       else option_map prop_of (last_attr_value k attrs)).
Proof.
  split.
  - intros pre k src post -> Hpre.
    component_type Hty; rewrite reduce_props_expression by exact Hpre; reflexivity.
  - intros Hlit. exists (fold_left set_attr attrs []). split.
    + component_type Hty; rewrite reduce_props_literal by exact Hlit;
        rewrite bind_ret_l, Hreg; reflexivity.
    + intros k. destruct (String.eqb_spec k "__proto__") as [->|Hk].
      * apply obj_get_fold_proto.
      * rewrite obj_get_fold by exact Hk. destruct (last_attr_value k attrs); reflexivity.
Qed.

Lemma registered_component_conversion_witness :
  exists props,
    convertAstToComponentRec demo_components
      (flow_element "Badge" [mkAttr "color" (AVString "red"); mkAttr "open" AVNull] [text_node "Hi"])
    = (cs <- walk_list demo_components [text_node "Hi"] ;;
       ret (Invocation "Badge" props (compact cs))) /\
    obj_get "color" props = Some (PStr "red") /\ obj_get "open" props = Some PTrue.
Proof.
  destruct (registered_component_conversion demo_components "mdxJsxFlowElement" None
              [text_node "Hi"] (Some "Badge") None
              [mkAttr "color" (AVString "red"); mkAttr "open" AVNull] "Badge"
              (or_intror eq_refl) eq_refl) as [_ H].
  destruct H as [props [Hw Hk]].
  - repeat constructor.
  - exists props. split; [exact Hw|]. rewrite !Hk. split; reflexivity.
Defined.

(** C5, as the code has it: the props of a tag are built before the table
    is consulted, so an unknown component with an expression-valued attribute
    is not dropped: its walk throws, nothing is logged, and a frame holding it
    fails to hydrate. *)
Lemma unknown_component_with_expression_throws :
  convertAstToComponentRec demo_components
    (flow_element "Unknown" [mkAttr "foo" (AVExpr "1")] [])
    = throw (ErrNonTrivialProp (AVExpr "1")) /\
  fst (hydrateMDX demo_components demo_compile "<Unknown foo={1} />")
    = Err (ErrNonTrivialProp (AVExpr "1")).
Proof. split; reflexivity. Qed.

(** C5 (amended): an [mdxJsx*Element] whose name is missing from the table
    and whose attributes are all literal walks to [Dropped] (its children are
    not walked) and logs exactly one warning, which names the component. As a
    child of a [root] it takes no slot: the root walks to the same result as
    without it, and the events are those of the siblings before it, that
    warning, then those of the siblings after it. If instead it has an
    expression-valued attribute, its walk throws the "non-trivial prop" error
    of the first such attribute and logs nothing. *)
Theorem unknown_component_dropped reg ty tg ch nm vl attrs
  (Hty : ty = "mdxJsxTextElement" \/ ty = "mdxJsxFlowElement")
  (Hreg : reg (name_key nm) = None) :
  (forall pre k src post,
     attrs = pre ++ mkAttr k (AVExpr src) :: post -> Forall literal pre ->
     convertAstToComponentRec reg (mkNode ty tg ch nm vl attrs)
       = throw (ErrNonTrivialProp (AVExpr src))) /\
  (Forall literal attrs ->
  convertAstToComponentRec reg (mkNode ty tg ch nm vl attrs) = (Ok Dropped, [ignored_event nm]) /\
  (forall pre post tg' nm' vl' at',
     fst (convertAstToComponentRec reg
            (mkNode "root" tg' (pre ++ mkNode ty tg ch nm vl attrs :: post) nm' vl' at'))
     = fst (convertAstToComponentRec reg (mkNode "root" tg' (pre ++ post) nm' vl' at')) /\
     snd (convertAstToComponentRec reg
            (mkNode "root" tg' (pre ++ mkNode ty tg ch nm vl attrs :: post) nm' vl' at'))
     = match walk_list reg pre with
       | (Ok _, e1) => e1 ++ ignored_event nm :: snd (walk_list reg post)
       | (Err _, e1) => e1
       end)).
Proof.
  split.
  { intros pre k src post -> Hpre.
    component_type Hty; rewrite reduce_props_expression by exact Hpre; reflexivity. }
  intros Hlit.
  assert (Hn : convertAstToComponentRec reg (mkNode ty tg ch nm vl attrs)
               = (Ok Dropped, [ignored_event nm])).
  { component_type Hty; rewrite reduce_props_literal by exact Hlit;
      rewrite bind_ret_l, Hreg; reflexivity. }
  split; [exact Hn|]. intros pre post tg' nm' vl' at'.
  rewrite !convertAstToComponentRec_eq. simpl. rewrite !walk_list_app.
  change (walk_list reg (mkNode ty tg ch nm vl attrs :: post)) with
    (y <- convertAstToComponentRec reg (mkNode ty tg ch nm vl attrs) ;;
     ys <- walk_list reg post ;; ret (y :: ys)).
  rewrite Hn.
  destruct (walk_list reg pre) as [[xs|e] l1]; simpl; [|split; reflexivity].
  destruct (walk_list reg post) as [[ys|e] l2]; simpl.
  - unfold compact. rewrite !filter_app. simpl. rewrite ?app_nil_r. split; reflexivity.
  - rewrite ?app_nil_r. split; reflexivity.
Qed.

Lemma unknown_component_dropped_witness :
  convertAstToComponentRec demo_components (flow_element "Unknown" [mkAttr "foo" (AVExpr "1")] [])
    = throw (ErrNonTrivialProp (AVExpr "1")) /\
  convertAstToComponentRec demo_components (flow_element "Unknown" [mkAttr "foo" (AVString "1")] [])
    = (Ok Dropped, [ignored_event (Some "Unknown")]) /\
  (forall pre post tg' nm' vl' at',
     fst (convertAstToComponentRec demo_components
            (mkNode "root" tg' (pre ++ flow_element "Unknown" [mkAttr "foo" (AVString "1")] [] :: post)
               nm' vl' at'))
     = fst (convertAstToComponentRec demo_components (mkNode "root" tg' (pre ++ post) nm' vl' at')) /\
     snd (convertAstToComponentRec demo_components
            (mkNode "root" tg' (pre ++ flow_element "Unknown" [mkAttr "foo" (AVString "1")] [] :: post)
               nm' vl' at'))
     = match walk_list demo_components pre with
       | (Ok _, e1) => e1 ++ ignored_event (Some "Unknown") :: snd (walk_list demo_components post)
       | (Err _, e1) => e1
       end).
Proof.
  split.
  - apply (proj1 (unknown_component_dropped demo_components "mdxJsxFlowElement" None [] (Some "Unknown")
                    None [mkAttr "foo" (AVExpr "1")] (or_intror eq_refl) eq_refl) [] "foo" "1" []).
    + reflexivity.
    + constructor.
  - apply (proj2 (unknown_component_dropped demo_components "mdxJsxFlowElement" None [] (Some "Unknown")
                    None [mkAttr "foo" (AVString "1")] (or_intror eq_refl) eq_refl)).
    repeat constructor.
Defined.

(** Scenario B of the spec: the unknown tag takes no slot in the root. *)
Example unknown_scenario_b :
  convertAstToComponentRec demo_components
    (root_node [flow_element "Unknown" [mkAttr "foo" (AVString "1")] []])
    = (Ok (Container []), [ignored_event (Some "Unknown")]).
Proof. reflexivity. Qed.

(** C2: with [hydrate], a frame whose [hydrateMDX] throws (compile
    rejects it, or the walk throws) yields nothing: the values yielded and
    the value returned are those of the stream without that frame, and the
    last value yielded before it stays the last one. In general the values
    yielded are the hydrations of the frames that succeed, in order. *)
Theorem failed_frame_yields_nothing reg compile pre f post final e
  (Hfail : fst (hydrateMDX reg compile f) = Err e) :
  yields (MdxChatCompletion reg compile (Some true) (pre ++ f :: post) final)
    = yields (MdxChatCompletion reg compile (Some true) (pre ++ post) final) /\
  returned (MdxChatCompletion reg compile (Some true) (pre ++ f :: post) final)
    = returned (MdxChatCompletion reg compile (Some true) (pre ++ post) final) /\
  fst (frames_loop reg compile (pre ++ [f])) = fst (frames_loop reg compile pre) /\
  (forall frames,
     yields (MdxChatCompletion reg compile (Some true) frames final)
     = flat_map (fun g => match fst (hydrateMDX reg compile g) with
                          | Ok r => [r]
                          | Err _ => []
                          end) frames).
Proof.
  assert (Hf : fst (frame_step reg compile f) = [])
    by (rewrite frame_step_yields, Hfail; reflexivity).
  split; [|split; [|split]].
  - rewrite !mdx_yields, !flat_map_app. simpl. rewrite Hf. reflexivity.
  - rewrite !mdx_returned. reflexivity.
  - rewrite frames_loop_app. simpl.
    destruct (frame_step reg compile f) as [ys evs]. simpl in Hf. subst ys.
    rewrite !app_nil_r. reflexivity.
  - intros frames. rewrite mdx_yields. apply flat_map_ext. intros g.
    apply frame_step_yields.
Qed.

(** Scenario A of the spec: the two unparsable prefixes yield nothing. *)
Lemma failed_frame_yields_nothing_witness :
  yields (MdxChatCompletion demo_components demo_compile (Some true)
            ([] ++ "<Ba" :: ["<Badge col"; "<Badge color='red'>Hi</Badge>"])
            "<Badge color='red'>Hi</Badge>")
    = yields (MdxChatCompletion demo_components demo_compile (Some true)
                ([] ++ ["<Badge col"; "<Badge color='red'>Hi</Badge>"])
                "<Badge color='red'>Hi</Badge>") /\
  returned (MdxChatCompletion demo_components demo_compile (Some true)
              ([] ++ "<Ba" :: ["<Badge col"; "<Badge color='red'>Hi</Badge>"])
              "<Badge color='red'>Hi</Badge>")
    = returned (MdxChatCompletion demo_components demo_compile (Some true)
                  ([] ++ ["<Badge col"; "<Badge color='red'>Hi</Badge>"])
                  "<Badge color='red'>Hi</Badge>") /\
  fst (frames_loop demo_components demo_compile ([] ++ ["<Ba"]))
    = fst (frames_loop demo_components demo_compile []) /\
  (forall frames,
     yields (MdxChatCompletion demo_components demo_compile (Some true) frames
               "<Badge color='red'>Hi</Badge>")
     = flat_map (fun g => match fst (hydrateMDX demo_components demo_compile g) with
                          | Ok r => [r]
                          | Err _ => []
                          end) frames).
Proof.
  apply (failed_frame_yields_nothing demo_components demo_compile [] "<Ba"
           ["<Badge col"; "<Badge color='red'>Hi</Badge>"] "<Badge color='red'>Hi</Badge>"
           (ErrCompile "<Ba")).
  reflexivity.
Defined.

Example scenario_a :
  yields (MdxChatCompletion demo_components demo_compile (Some true)
            ["<Ba"; "<Badge col"; "<Badge color='red'>Hi</Badge>"]
            "<Badge color='red'>Hi</Badge>")
  = [AIReact (Container [Invocation "Badge" [("color", PStr "red")] [Display [Some "Hi"]]])].
Proof. reflexivity. Qed.

(** Scenario C of the spec: a final document that does not compile rejects
    the generator. *)
Example scenario_c :
  returned (MdxChatCompletion demo_components demo_compile (Some true) [] "<Card><Badge")
  = Err (ErrCompile "<Card><Badge").
Proof. reflexivity. Qed.

(** C9, as the code has it: the walk does throw on a node type it has no
    case for, but on a non-final frame the [catch] swallows that error like
    any other: here the generator yields nothing for the frame and returns
    normally. *)
Lemma unhandled_type_swallowed_on_frame :
  fst (hydrateMDX demo_components demo_compile "{x}")
    = Err (ErrUnhandledType (mkNode "mdxFlowExpression" None [] None (Some "x") [])) /\
  yields (MdxChatCompletion demo_components demo_compile (Some true) ["{x}"]
            "<Badge color='red'>Hi</Badge>") = [] /\
  returned (MdxChatCompletion demo_components demo_compile (Some true) ["{x}"]
              "<Badge color='red'>Hi</Badge>")
    = Ok (RetHydrated (AIReact
            (Container [Invocation "Badge" [("color", PStr "red")] [Display [Some "Hi"]]]))).
Proof. repeat split; reflexivity. Qed.

(** C9 (amended): a node whose type has no [case] makes the walk throw the
    "Unhandled MDX AST type" error, logging nothing. When the walk of a
    document fails with that error, a non-final frame of that document
    yields nothing (the error is swallowed), while as the final document it
    rejects the generator with that error. *)
Theorem unhandled_type_error reg compile ty tg ch nm vl at'
  (Hty : ~ In ty walker_types) :
  convertAstToComponentRec reg (mkNode ty tg ch nm vl at')
    = throw (ErrUnhandledType (mkNode ty tg ch nm vl at')) /\
  (forall doc ast n,
     compile doc = Some ast ->
     fst (convertAstToComponent reg ast) = Err (ErrUnhandledType n) ->
     fst (frame_step reg compile doc) = [] /\
     forall frames,
       returned (MdxChatCompletion reg compile (Some true) frames doc)
       = Err (ErrUnhandledType n)).
Proof.
  split.
  - rewrite convertAstToComponentRec_eq.
    assert (Hne : forall t, In t walker_types -> String.eqb ty t = false).
    { intros t Ht. apply String.eqb_neq. intros ->. exact (Hty Ht). }
    unfold walker_types in Hne.
    rewrite !Hne by (simpl; tauto). reflexivity.
  - intros doc ast n Hc Hw. split.
    + rewrite frame_step_yields, hydrateMDX_fst, Hc, Hw. reflexivity.
    + intros frames. rewrite mdx_returned, Hc, Hw. reflexivity.
Qed.

Lemma unhandled_type_error_witness :
  convertAstToComponentRec demo_components (mkNode "mdxFlowExpression" None [] None (Some "x") [])
    = throw (ErrUnhandledType (mkNode "mdxFlowExpression" None [] None (Some "x") [])) /\
  (forall doc ast n,
     demo_compile doc = Some ast ->
     fst (convertAstToComponent demo_components ast) = Err (ErrUnhandledType n) ->
     fst (frame_step demo_components demo_compile doc) = [] /\
     forall frames,
       returned (MdxChatCompletion demo_components demo_compile (Some true) frames doc)
       = Err (ErrUnhandledType n)).
Proof.
  apply (unhandled_type_error demo_components demo_compile "mdxFlowExpression" None [] None
           (Some "x") []).
  unfold walker_types. simpl. intuition discriminate.
Defined.

(** ** Further properties of the walker and the generator *)

Lemma walk_safe_kids reg l :
  (fix go (l : list Node) : bool :=
     match l with [] => true | x :: xs => walk_safe reg x && go xs end) l
  = forallb (walk_safe reg) l.
Proof. induction l as [|x xs IH]; simpl; [reflexivity|]. rewrite IH. reflexivity. Qed.

Lemma walk_safe_eq reg ty tg ch nm vl attrs :
  walk_safe reg (mkNode ty tg ch nm vl attrs) =
    if String.eqb ty "root" || String.eqb ty "element" then forallb (walk_safe reg) ch
    else if is_component_type ty then
      forallb (fun a => negb (has_type (attr_value a))) attrs &&
      match reg (name_key nm) with None => true | Some _ => forallb (walk_safe reg) ch end
    else String.eqb ty "text" || String.eqb ty "mdxjsEsm".
Proof. simpl. rewrite walk_safe_kids. reflexivity. Qed.

Lemma expected_warnings_kids reg l :
  (fix go (l : list Node) : list Event :=
     match l with [] => [] | x :: xs => expected_warnings reg x ++ go xs end) l
  = flat_map (expected_warnings reg) l.
Proof. induction l as [|x xs IH]; simpl; [reflexivity|]. rewrite IH. reflexivity. Qed.

Lemma expected_warnings_eq reg ty tg ch nm vl attrs :
  expected_warnings reg (mkNode ty tg ch nm vl attrs) =
    if String.eqb ty "root" || String.eqb ty "element" then flat_map (expected_warnings reg) ch
    else if is_component_type ty then
      match reg (name_key nm) with
      | None => [ignored_event nm]
      | Some _ => flat_map (expected_warnings reg) ch
      end
    else [].
Proof. simpl. rewrite expected_warnings_kids. reflexivity. Qed.

Lemma slots_kids l :
  (fix go (l : list UiNode) : bool :=
     match l with
     | [] => true
     | k :: rest =>
         match k with Dropped => false | _ => true end && slots_non_null k && go rest
     end) l
  = forallb (fun k => not_dropped k && slots_non_null k) l.
Proof. induction l as [|x xs IH]; simpl; [reflexivity|]. rewrite IH. reflexivity. Qed.

Lemma slots_container ks :
  slots_non_null (Container ks) = forallb (fun k => not_dropped k && slots_non_null k) ks.
Proof. apply slots_kids. Qed.

Lemma slots_invocation c p ks :
  slots_non_null (Invocation c p ks) = forallb (fun k => not_dropped k && slots_non_null k) ks.
Proof. apply slots_kids. Qed.

Lemma slots_compact cs :
  forallb slots_non_null cs = true ->
  forallb (fun k => not_dropped k && slots_non_null k) (compact cs) = true.
Proof.
  induction cs as [|c cs IH]; simpl; [reflexivity|].
  intros H. apply andb_true_iff in H as [Hc Hcs].
  unfold compact in *. simpl. destruct (truthy c) eqn:Ht; simpl; [|apply IH, Hcs].
  rewrite Hc, (IH Hcs). destruct c; try reflexivity. discriminate.
Qed.

Lemma reduce_props_not_literal acc attrs :
  forallb (fun a => negb (has_type (attr_value a))) attrs = false ->
  exists e, reduce_props acc attrs = throw e.
Proof.
  revert acc. induction attrs as [|a rest IH]; intros acc H; [discriminate|].
  simpl in H. simpl. unfold props_step.
  destruct (has_type (attr_value a)) eqn:Ha; simpl in H.
  - eexists. reflexivity.
  - rewrite bind_ret_l. apply IH, H.
Qed.

Lemma forallb_literal attrs :
  forallb (fun a => negb (has_type (attr_value a))) attrs = true -> Forall literal attrs.
Proof.
  intros H. apply Forall_forall. intros a Ha. unfold literal.
  rewrite forallb_forall in H. specialize (H a Ha).
  destruct (has_type (attr_value a)); [discriminate|reflexivity].
Qed.

(** The walk of a node, summarised: it succeeds exactly when [walk_safe]
    holds, then logs [expected_warnings] and returns a tree without [null]
    slots. *)
Definition walk_spec (reg : Registry) (n : Node) : Prop :=
  (walk_safe reg n = true ->
   exists u, convertAstToComponentRec reg n = (Ok u, expected_warnings reg n) /\
             slots_non_null u = true) /\
  (walk_safe reg n = false -> exists e, fst (convertAstToComponentRec reg n) = Err e).

Lemma walk_list_spec reg l :
  Forall (walk_spec reg) l ->
  (forallb (walk_safe reg) l = true ->
   exists cs, walk_list reg l = (Ok cs, flat_map (expected_warnings reg) l) /\
              forallb slots_non_null cs = true) /\
  (forallb (walk_safe reg) l = false -> exists e, fst (walk_list reg l) = Err e).
Proof.
  induction l as [|x xs IH]; intros Hall.
  - split; [intros _; exists []; split; reflexivity | discriminate].
  - inversion Hall as [|? ? [Hx1 Hx2] Hxs]; subst. specialize (IH Hxs) as [IH1 IH2].
    simpl. split.
    + intros H. apply andb_true_iff in H as [Hx Hrest].
      destruct (Hx1 Hx) as [u [Hu Hsu]]. destruct (IH1 Hrest) as [cs [Hcs Hscs]].
      exists (u :: cs). rewrite Hu, Hcs. simpl. rewrite app_nil_r, Hsu, Hscs.
      split; reflexivity.
    + intros H. destruct (walk_safe reg x) eqn:Hx; simpl in H.
      * destruct (Hx1 eq_refl) as [u [Hu _]]. destruct (IH2 H) as [e He].
        exists e. rewrite Hu. simpl.
        destruct (walk_list reg xs) as [[?|?] ?]; simpl in *; [discriminate|].
        injection He as ->. reflexivity.
      * destruct (Hx2 eq_refl) as [e He]. exists e.
        destruct (convertAstToComponentRec reg x) as [[?|?] ?]; simpl in *;
          [discriminate|]. injection He as ->. reflexivity.
Qed.

Lemma walk_spec_all reg n : walk_spec reg n.
Proof.
  induction n as [ty tg ch nm vl attrs Hch] using node_ind'.
  destruct (walk_list_spec reg ch Hch) as [HL1 HL2].
  unfold walk_spec. rewrite walk_safe_eq, expected_warnings_eq, convertAstToComponentRec_eq.
  unfold is_component_type.
  destruct (String.eqb ty "root") eqn:Er; simpl.
  { split.
    - intros H. destruct (HL1 H) as [cs [Hcs Hs]]. rewrite Hcs. simpl.
      exists (Container (compact cs)). rewrite app_nil_r, slots_container, slots_compact by exact Hs.
      split; reflexivity.
    - intros H. destruct (HL2 H) as [e He]. exists e.
      destruct (walk_list reg ch) as [[?|?] ?]; simpl in *; [discriminate|]. congruence. }
  destruct (String.eqb ty "element") eqn:Ee; simpl.
  { split.
    - intros H. destruct (HL1 H) as [cs [Hcs Hs]]. rewrite Hcs. simpl.
      exists (Container (RawText "element " :: compact cs)).
      rewrite app_nil_r, slots_container. simpl. rewrite slots_compact by exact Hs.
      split; reflexivity.
    - intros H. destruct (HL2 H) as [e He]. exists e.
      destruct (walk_list reg ch) as [[?|?] ?]; simpl in *; [discriminate|]. congruence. }
  destruct (String.eqb ty "mdxJsxTextElement" || String.eqb ty "mdxJsxFlowElement").
  - destruct (forallb (fun a => negb (has_type (attr_value a))) attrs) eqn:Ea; simpl.
    + rewrite reduce_props_literal by (apply forallb_literal, Ea). rewrite bind_ret_l.
      destruct (reg (name_key nm)) as [c|].
      * split.
        -- intros H. destruct (HL1 H) as [cs [Hcs Hs]]. rewrite Hcs. simpl.
           exists (Invocation c (fold_left set_attr attrs []) (compact cs)).
           rewrite app_nil_r, slots_invocation, slots_compact by exact Hs.
           split; reflexivity.
        -- intros H. destruct (HL2 H) as [e He]. exists e.
           destruct (walk_list reg ch) as [[?|?] ?]; simpl in *; [discriminate|]. congruence.
      * split; [|discriminate]. intros _. exists Dropped. split; reflexivity.
    + split; [discriminate|]. intros _.
      destruct (reduce_props_not_literal [] attrs Ea) as [e He]. rewrite He.
      exists e. reflexivity.
  - destruct (String.eqb ty "text").
    + split; [|discriminate]. intros _.
      destruct vl as [v|]; [destruct (String.eqb v newline)|];
        eexists; split; reflexivity.
    + destruct (String.eqb ty "mdxjsEsm"); simpl.
      * split; [|discriminate]. intros _. exists Dropped. split; reflexivity.
      * split; [discriminate|]. intros _. eexists. reflexivity.
Qed.

(** The walk of a node succeeds exactly when [walk_safe] holds: it throws
    only at a node of an unhandled type or at a tag with an expression-valued
    attribute, and never inside a tag missing from the table. *)
Theorem walk_succeeds_iff_safe reg n :
  (exists u, fst (convertAstToComponentRec reg n) = Ok u) <-> walk_safe reg n = true.
Proof.
  destruct (walk_spec_all reg n) as [H1 H2]. split.
  - intros [u Hu]. destruct (walk_safe reg n) eqn:Hs; [reflexivity|].
    destruct (H2 eq_refl) as [e He]. congruence.
  - intros Hs. destruct (H1 Hs) as [u [Hu _]]. exists u. rewrite Hu. reflexivity.
Qed.

(** A walk that succeeds logs exactly one warning per tag missing from the
    table that is not inside another such tag, in document order, and
    nothing else. *)
Theorem walk_warnings_exact reg n (Hsafe : walk_safe reg n = true) :
  snd (convertAstToComponentRec reg n) = expected_warnings reg n.
Proof.
  destruct (walk_spec_all reg n) as [H1 _]. destruct (H1 Hsafe) as [u [Hu _]].
  rewrite Hu. reflexivity.
Qed.

Lemma walk_warnings_exact_witness :
  snd (convertAstToComponentRec demo_components
         (root_node [flow_element "A" [] [flow_element "B" [] []]; text_node "x";
                     flow_element "Badge" [] [flow_element "C" [] []]]))
  = [ignored_event (Some "A"); ignored_event (Some "C")].
Proof.
  rewrite (walk_warnings_exact demo_components
             (root_node [flow_element "A" [] [flow_element "B" [] []]; text_node "x";
                         flow_element "Badge" [] [flow_element "C" [] []]]) eq_refl).
  reflexivity.
Defined.

(** No [Container] or [Invocation] of a walked tree has a [null] slot, at
    any depth: [_.compact] removes every dropped child. *)
Theorem walked_tree_no_null_slot reg n u
  (Hok : fst (convertAstToComponentRec reg n) = Ok u) :
  slots_non_null u = true.
Proof.
  destruct (walk_spec_all reg n) as [H1 H2].
  destruct (walk_safe reg n) eqn:Hs.
  - destruct (H1 eq_refl) as [u' [Hu' Hsu]]. rewrite Hu' in Hok. simpl in Hok.
    injection Hok as <-. exact Hsu.
  - destruct (H2 eq_refl) as [e He]. congruence.
Qed.

Lemma walked_tree_no_null_slot_witness :
  slots_non_null (Container [Invocation "Badge" [] [Display [Some "x"]]]) = true.
Proof.
  apply (walked_tree_no_null_slot demo_components
           (root_node [flow_element "Unknown" [] []; flow_element "Badge" [] [text_node "x"];
                       mkNode "mdxjsEsm" None [] None None []])).
  reflexivity.
Defined.

Lemma walk_events_forall {A B} (Q : Event -> Prop) (m : M A) (k : A -> M B) :
  Forall Q (snd m) -> (forall a, Forall Q (snd (k a))) -> Forall Q (snd (bind m k)).
Proof.
  intros Hm Hk. destruct m as [[a|e] l]; simpl in *; [|exact Hm].
  specialize (Hk a). destruct (k a) as [r l2]. simpl in *. apply Forall_app. auto.
Qed.

(** Every event of a walk, successful or not, is an ignored-component warning. *)
Lemma walk_events_ignored reg n :
  Forall (fun e => exists nm, e = ignored_event nm) (snd (convertAstToComponentRec reg n)).
Proof.
  induction n as [ty tg ch nm vl attrs Hch] using node_ind'.
  assert (HL : Forall (fun e => exists nm, e = ignored_event nm) (snd (walk_list reg ch))).
  { induction Hch as [|x xs Hx Hxs IH]; simpl; [constructor|].
    apply walk_events_forall; [exact Hx|]. intros y.
    apply walk_events_forall; [exact IH|]. intros ys. constructor. }
  rewrite convertAstToComponentRec_eq.
  destruct (String.eqb ty "root");
    [apply walk_events_forall; [exact HL | intros; constructor]|].
  destruct (String.eqb ty "element");
    [apply walk_events_forall; [exact HL | intros; constructor]|].
  destruct (_ || _).
  - apply walk_events_forall.
    + assert (Hr : forall acc, Forall (fun e => exists nm, e = ignored_event nm)
                                      (snd (reduce_props acc attrs))).
      { induction attrs as [|a rest IH]; intros acc; [simpl; constructor|].
        cbn [reduce_props]. unfold props_step.
        destruct (has_type (attr_value a)); [simpl; constructor|].
        rewrite bind_ret_l. apply IH. }
      apply Hr.
    + intros props. destruct (reg (name_key nm)).
      * apply walk_events_forall; [exact HL | intros; constructor].
      * simpl. repeat constructor. exists nm. reflexivity.
  - destruct (String.eqb ty "text");
      [destruct vl as [v|]; [destruct (String.eqb v newline)|]; constructor|].
    destruct (String.eqb ty "mdxjsEsm"); constructor.
Qed.

Lemma walk_events_filter reg n f :
  (forall nm, f (ignored_event nm) = false) ->
  filter f (snd (convertAstToComponentRec reg n)) = [].
Proof.
  intros Hf. pose proof (walk_events_ignored reg n) as H.
  induction H as [|e l [nm ->] _ IH]; simpl; [reflexivity|]. rewrite Hf. exact IH.
Qed.

Lemma hydrateMDX_filter reg compile mdx f :
  (forall nm, f (ignored_event nm) = false) ->
  (forall u ast, f (EvWarnHydrating u ast) = false) ->
  filter f (snd (hydrateMDX reg compile mdx)) = filter f [EvCompile mdx].
Proof.
  intros Hi Hh. unfold hydrateMDX, convertAstToComponent. simpl.
  destruct (compile mdx) as [ast|]; simpl; [|reflexivity].
  pose proof (walk_events_filter reg ast f Hi) as Hw.
  destruct (convertAstToComponentRec reg ast) as [[u|e] l] eqn:E; simpl in *.
  - rewrite app_nil_r, filter_app, Hw. simpl. rewrite Hh, Hw.
    destruct (f (EvCompile mdx)); reflexivity.
  - rewrite Hw. destruct (f (EvCompile mdx)); reflexivity.
Qed.

(** When [compile] accepts a document whose walk succeeds, [hydrateMDX]
    walks it twice: it calls [compile] once, logs the walk's warnings, logs
    the hydrated tree, then logs the same warnings a second time, and returns
    the tree of the walk. *)
Theorem hydrate_logs_warnings_twice reg compile mdx ast
  (Hc : compile mdx = Some ast) (Hsafe : walk_safe reg ast = true) :
  exists u,
    fst (convertAstToComponentRec reg ast) = Ok u /\
    hydrateMDX reg compile mdx =
      (Ok (AIReact u),
       EvCompile mdx :: expected_warnings reg ast ++
       EvWarnHydrating u ast :: expected_warnings reg ast).
Proof.
  destruct (walk_spec_all reg ast) as [H1 _]. destruct (H1 Hsafe) as [u [Hu _]].
  exists u. split; [rewrite Hu; reflexivity|].
  unfold hydrateMDX, convertAstToComponent. rewrite Hc. simpl. rewrite Hu. simpl.
  rewrite !app_nil_r. reflexivity.
Qed.

Lemma hydrate_logs_warnings_twice_witness :
  exists u,
    fst (convertAstToComponentRec demo_components unknown_doc) = Ok u /\
    hydrateMDX demo_components (fun _ => Some unknown_doc) "<Unknown />" =
      (Ok (AIReact u),
       EvCompile "<Unknown />" :: expected_warnings demo_components unknown_doc ++
       EvWarnHydrating u unknown_doc :: expected_warnings demo_components unknown_doc).
Proof.
  apply (hydrate_logs_warnings_twice demo_components (fun _ => Some unknown_doc)
           "<Unknown />" unknown_doc); reflexivity.
Defined.

Lemma mdx_trace reg compile frames final :
  trace (MdxChatCompletion reg compile (Some true) frames final) =
    snd (frames_loop reg compile frames) ++ snd (hydrateMDX reg compile final).
Proof.
  unfold MdxChatCompletion. simpl.
  destruct (frames_loop reg compile frames). destruct (hydrateMDX reg compile final).
  reflexivity.
Qed.

Lemma frames_loop_events_filter reg compile f frames :
  filter f (snd (frames_loop reg compile frames)) =
    flat_map (fun g => filter f (snd (frame_step reg compile g))) frames.
Proof.
  induction frames as [|g gs IH]; [reflexivity|]. simpl.
  destruct (frame_step reg compile g) as [ys evs].
  destruct (frames_loop reg compile gs) as [ys' evs']. simpl in *.
  rewrite filter_app, IH. reflexivity.
Qed.

Lemma frame_step_events reg compile g :
  snd (frame_step reg compile g) =
    snd (hydrateMDX reg compile g) ++
    [match fst (hydrateMDX reg compile g) with
     | Ok _ => EvTraceYield g
     | Err _ => EvTraceSkip g
     end].
Proof. unfold frame_step. destruct (hydrateMDX reg compile g) as [[r|e] evs]; reflexivity. Qed.

(** With [hydrate], [compile] is called once on every frame, in arrival
    order, and then once on the final document, and at no other time. *)
Theorem compile_called_per_frame reg compile frames final :
  filter is_compile_event (trace (MdxChatCompletion reg compile (Some true) frames final))
  = map EvCompile (frames ++ [final]).
Proof.
  rewrite mdx_trace, filter_app, frames_loop_events_filter.
  rewrite (hydrateMDX_filter reg compile final) by reflexivity.
  rewrite map_app. f_equal.
  induction frames as [|g gs IH]; [reflexivity|]. simpl. rewrite IH.
  rewrite frame_step_events, filter_app.
  rewrite (hydrateMDX_filter reg compile g) by reflexivity.
  destruct (fst (hydrateMDX reg compile g)); reflexivity.
Qed.

(** With [hydrate], every frame is traced exactly once, in arrival order:
    as yielded when its hydration succeeded and as skipped when it threw;
    the final document is not traced. *)
Theorem frames_traced_once reg compile frames final :
  filter is_trace_event (trace (MdxChatCompletion reg compile (Some true) frames final))
  = map (fun g => match fst (hydrateMDX reg compile g) with
                  | Ok _ => EvTraceYield g
                  | Err _ => EvTraceSkip g
                  end) frames.
Proof.
  rewrite mdx_trace, filter_app, frames_loop_events_filter.
  rewrite (hydrateMDX_filter reg compile final) by reflexivity. simpl. rewrite app_nil_r.
  induction frames as [|g gs IH]; [reflexivity|]. simpl. rewrite IH.
  rewrite frame_step_events, filter_app.
  rewrite (hydrateMDX_filter reg compile g) by reflexivity. simpl.
  destruct (fst (hydrateMDX reg compile g)); reflexivity.
Qed.

(** ** Properties of [IsomorphicFixieClient] *)
Module FixieFacts.
Import Fixie.
Local Open Scope string_scope.

Lemma request_events debug fetch c path b :
  snd (request debug fetch c path b) =
  app (if debug then [ConsoleLog ("[Fixie request] " ++ url c ++ path) b] else [])
   [Fetch (if js_truthy b then
             mkRequest (url c ++ path) "POST"
               [("Authorization", "Bearer " ++ template_opt (apiKey c));
                ("Content-Type", "application/json")] (stringify b)
           else
             mkRequest (url c ++ path) "GET"
               [("Authorization", "Bearer " ++ template_opt (apiKey c))] None)].
Proof.
  unfold request; cbv zeta.
  destruct (fetch _) as [res|]; [destruct (res_ok res), (res_json res)|]; reflexivity.
Qed.

Lemma fetches_request debug fetch c path b :
  fetches (snd (request debug fetch c path b)) =
  [if js_truthy b then
     mkRequest (url c ++ path) "POST"
       [("Authorization", "Bearer " ++ template_opt (apiKey c));
        ("Content-Type", "application/json")] (stringify b)
   else
     mkRequest (url c ++ path) "GET"
       [("Authorization", "Bearer " ++ template_opt (apiKey c))] None].
Proof. rewrite request_events; destruct debug; reflexivity. Qed.

Lemma request_result debug fetch c path b :
  fst (request debug fetch c path b) =
  match fetch (if js_truthy b then
                 mkRequest (url c ++ path) "POST"
                   [("Authorization", "Bearer " ++ template_opt (apiKey c));
                    ("Content-Type", "application/json")] (stringify b)
               else
                 mkRequest (url c ++ path) "GET"
                   [("Authorization", "Bearer " ++ template_opt (apiKey c))] None) with
  | None => Rejected FetchRejected
  | Some res =>
      if negb (res_ok res) then
        Rejected (HttpFailure ("Failed to access Fixie API " ++ url c ++ path ++ ": " ++
                               res_statusText res))
      else match res_json res with Some v => Resolved v | None => Rejected JsonRejected end
  end.
Proof.
  unfold request; cbv zeta.
  destruct (fetch _) as [res|]; [destruct (res_ok res), (res_json res)|]; reflexivity.
Qed.


Lemma js_truthy_str s : js_truthy (JStr s) = true <-> s <> "".
Proof.
  simpl. destruct (String.eqb_spec s "") as [E|E]; simpl; split; congruence.
Qed.

(** [Create(url, apiKey)] succeeds exactly when [apiKey] is a non-empty
    string, or [apiKey] is [undefined] and [FIXIE_API_KEY] is a non-empty
    string: an empty [apiKey] does not fall back to the environment. *)
Theorem Create_accepts_iff env u k :
  (exists c, Create env u k = Resolved c) <->
  match k with
  | Some s => s <> ""
  | None => exists s, env = Some s /\ s <> ""
  end.
Proof.
  unfold Create. destruct k as [s|].
  - rewrite <- js_truthy_str. simpl opt_str.
    destruct (js_truthy (JStr s)); simpl; split.
    + reflexivity.
    + intros _. eexists; reflexivity.
    + intros [c Hc]; discriminate.
    + discriminate.
  - destruct env as [s|]; simpl opt_str.
    + destruct (js_truthy (JStr s)) eqn:E; simpl; split.
      * intros _. exists s. split; [reflexivity|]. apply js_truthy_str; exact E.
      * intros _. eexists; reflexivity.
      * intros [c Hc]; discriminate.
      * intros [s' [Hs Hne]]. injection Hs as <-.
        apply js_truthy_str in Hne. congruence.
    + simpl. split.
      * intros [c Hc]; discriminate.
      * intros [s' [Hs _]]; discriminate.
Qed.

(** A client created with the key taken from [FIXIE_API_KEY] does not keep
    it: every request it sends carries [Authorization: Bearer undefined]. *)
Theorem Create_env_key_sends_bearer_undefined env u c
  (H : Create env u None = Resolved c) debug fetch path b :
  exists r, fetches (snd (request debug fetch c path b)) = [r] /\
    In ("Authorization", "Bearer undefined") (req_headers r).
Proof.
  unfold Create in H.
  destruct (negb (js_truthy (opt_str _))); [discriminate|].
  injection H as <-.
  rewrite fetches_request. eexists; split; [reflexivity|].
  destruct (js_truthy b); simpl; left; reflexivity.
Qed.

Lemma Create_env_key_sends_bearer_undefined_witness :
  exists r, fetches (snd (request false (fun _ => None)
                            (mkClient "https://app.fixie.ai" None) "/api/user" JUndef)) = [r] /\
    In ("Authorization", "Bearer undefined") (req_headers r).
Proof.
  apply (Create_env_key_sends_bearer_undefined (Some "sk-test") "https://app.fixie.ai"
           (mkClient "https://app.fixie.ai" None)).
  reflexivity.
Defined.


(** A response that is not [ok] to the request's [fetch] rejects [request]
    with a message naming the URL, the path and the status text, whatever
    the body. *)
Theorem request_rejects_http_error debug fetch c path b r res
  (Hr : fetches (snd (request debug fetch c path b)) = [r])
  (Hfetch : fetch r = Some res) (Hok : res_ok res = false) :
  fst (request debug fetch c path b) =
  Rejected (HttpFailure ("Failed to access Fixie API " ++ url c ++ path ++ ": " ++
                         res_statusText res)).
Proof.
  rewrite fetches_request in Hr. rewrite request_result.
  set (req := if js_truthy b then _ else _) in *.
  assert (E : req = r) by congruence.
  rewrite E, Hfetch, Hok. reflexivity.
Qed.

(** A server that refuses GETs only. *)
Definition refuse_gets (r : FetchRequest) : option Response :=
  if String.eqb (req_method r) "GET" then Some (mkResponse false "Unauthorized" None)
  else Some (mkResponse true "OK" (Some JNull)).

Lemma request_rejects_http_error_witness :
  fst (request true refuse_gets
         (mkClient "https://app.fixie.ai" (Some "k")) "/api/v1/corpora" JUndef) =
  Rejected (HttpFailure "Failed to access Fixie API https://app.fixie.ai/api/v1/corpora: Unauthorized").
Proof.
  rewrite (request_rejects_http_error true refuse_gets
             (mkClient "https://app.fixie.ai" (Some "k")) "/api/v1/corpora" JUndef
             (mkRequest "https://app.fixie.ai/api/v1/corpora" "GET"
                [("Authorization", "Bearer k")] None)
             (mkResponse false "Unauthorized" None) eq_refl eq_refl eq_refl).
  reflexivity.
Defined.

(** [request] resolves to [v] exactly when its one [fetch] resolves to an
    [ok] response whose JSON is [v]. *)
Theorem request_resolves_iff debug fetch c path b v :
  fst (request debug fetch c path b) = Resolved v <->
  exists r res, fetches (snd (request debug fetch c path b)) = [r] /\
    fetch r = Some res /\ res_ok res = true /\ res_json res = Some v.
Proof.
  rewrite request_result, fetches_request.
  set (req := if js_truthy b then _ else _). split.
  - destruct (fetch req) as [res|] eqn:F; [|discriminate].
    destruct (res_ok res) eqn:O; [|discriminate]. simpl.
    destruct (res_json res) eqn:J; [|discriminate].
    intros Hv; injection Hv as ->.
    do 2 eexists; repeat split; eauto.
  - intros [r [res [Hr [F [O J]]]]]. injection Hr as <-.
    rewrite F, O, J. reflexivity.
Qed.

(** [request] writes to the console only when [FIXIE_DEBUG] is exactly the
    string ["true"]. *)
Theorem request_logs_iff_debug env fetch c path b :
  console_logs (snd (request (debug_of env) fetch c path b)) <> [] <->
  env = Some (Some "true").
Proof.
  rewrite request_events.
  destruct env as [[s|]|]; simpl.
  - destruct (String.eqb_spec s "true") as [->|E]; simpl; split.
    + reflexivity.
    + discriminate.
    + intros H; exfalso; apply H; reflexivity.
    + congruence.
  - split; [intros H; exfalso; apply H; reflexivity|discriminate].
  - split; [intros H; exfalso; apply H; reflexivity|discriminate].
Qed.

(** The nine read methods each send a single bodiless GET with only the
    [Authorization] header. *)
Theorem getters_only_get debug fetch c corpusId sourceId jobId docId :
  only_get c (snd (userInfo debug fetch c)) /\
  only_get c (snd (listCorpora debug fetch c)) /\
  only_get c (snd (getCorpus debug fetch c corpusId)) /\
  only_get c (snd (listCorpusSources debug fetch c corpusId)) /\
  only_get c (snd (getCorpusSource debug fetch c corpusId sourceId)) /\
  only_get c (snd (listCorpusSourceJobs debug fetch c corpusId sourceId)) /\
  only_get c (snd (getCorpusSourceJob debug fetch c corpusId sourceId jobId)) /\
  only_get c (snd (listCorpusDocs debug fetch c corpusId)) /\
  only_get c (snd (getCorpusDoc debug fetch c corpusId docId)).
Proof.
  unfold only_get, userInfo, listCorpora, getCorpus, listCorpusSources, getCorpusSource,
    listCorpusSourceJobs, getCorpusSourceJob, listCorpusDocs, getCorpusDoc.
  repeat split; (eexists; split; [apply fetches_request|]); repeat split.
Qed.

(** [refreshCorpusSource] always POSTs, also when [force] is [undefined]: the
    body is then the empty object. *)
Theorem refresh_always_posts debug fetch c corpusId sourceId force :
  exists r, fetches (snd (refreshCorpusSource debug fetch c corpusId sourceId force)) = [r] /\
    req_method r = "POST" /\
    req_body r = Some (JsonObj (match force with Some v => [("force", JsonBool v)] | None => [] end)).
Proof.
  unfold refreshCorpusSource. rewrite fetches_request.
  eexists; split; [reflexivity|]. destruct force; split; reflexivity.
Qed.

(** [createCorpus] POSTs a [corpus] object from which an [undefined] name or
    description is left out. *)
Theorem createCorpus_body debug fetch c name description :
  exists r, fetches (snd (createCorpus debug fetch c name description)) = [r] /\
    req_method r = "POST" /\ req_url r = url c ++ "/api/v1/corpora" /\
    req_body r = Some (JsonObj [("corpus", JsonObj (str_field "display_name" name ++
                                                    str_field "description" description))]).
Proof.
  unfold createCorpus. rewrite fetches_request.
  eexists; split; [reflexivity|].
  destruct name, description; repeat split.
Qed.

(** [queryCorpus] POSTs the corpus id and the query, and leaves [max_chunks]
    out when it is [undefined]. *)
Theorem queryCorpus_body debug fetch c corpusId query maxChunks :
  exists r, fetches (snd (queryCorpus debug fetch c corpusId query maxChunks)) = [r] /\
    req_method r = "POST" /\ req_url r = url c ++ "/api/v1/corpora/" ++ corpusId ++ ":query" /\
    req_body r = Some (JsonObj ([("corpus_id", JsonStr corpusId); ("query", JsonStr query)] ++
                                match maxChunks with
                                | Some n => [("max_chunks", JsonNum n)]
                                | None => []
                                end)).
Proof.
  unfold queryCorpus. rewrite fetches_request.
  eexists; split; [reflexivity|].
  destruct maxChunks; repeat split.
Qed.

Lemma sanitize_all_rejects sanitize_url urls u :
  In u urls -> sanitize_url u = None ->
  exists u', In u' urls /\ sanitize_url u' = None /\
    sanitize_all sanitize_url urls = Rejected (InvalidUrl u').
Proof.
  induction urls as [|x xs IH]; simpl; [contradiction|].
  intros Hin Hbad.
  destruct (sanitize_url x) as [x'|] eqn:Ex.
  - destruct Hin as [->|Hin]; [congruence|].
    destruct (IH Hin Hbad) as [u' [Hu' [Hb Hs]]].
    exists u'. rewrite Hs. split; [right; exact Hu'|split; [exact Hb|reflexivity]].
  - exists x. split; [left; reflexivity|split; [exact Ex|reflexivity]].
Qed.

Lemma sanitize_all_resolves sanitize_url urls :
  (forall u, In u urls -> sanitize_url u <> None) ->
  exists l, map Some l = map sanitize_url urls /\ sanitize_all sanitize_url urls = Resolved l.
Proof.
  induction urls as [|x xs IH]; simpl; intros Hok.
  - exists []. split; reflexivity.
  - destruct (sanitize_url x) as [x'|] eqn:Ex.
    + destruct IH as [l [Hl Hs]].
      { intros u Hu. apply Hok. right; exact Hu. }
      exists (x' :: l). rewrite Hs. simpl. rewrite Hl. split; reflexivity.
    + exfalso. apply (Hok x); [left; reflexivity|exact Ex].
Qed.

Lemma stringify_strs l : stringify (JArr (map JStr l)) = Some (JsonArr (map JsonStr l)).
Proof.
  induction l as [|x xs IH]; [reflexivity|].
  simpl in *. injection IH as IH. rewrite IH. reflexivity.
Qed.

(** [addCorpusSource] throws at a start URL that [new URL] rejects, before
    any request: nothing is logged and nothing is fetched. *)
Theorem addCorpusSource_invalid_url debug fetch sanitize_url c corpusId startUrls
  includeGlobs excludeGlobs maxDocuments maxDepth description u
  (Hin : In u startUrls) (Hbad : sanitize_url u = None) :
  exists u', In u' startUrls /\ sanitize_url u' = None /\
    addCorpusSource debug fetch sanitize_url c corpusId startUrls includeGlobs excludeGlobs
      maxDocuments maxDepth description = (Rejected (InvalidUrl u'), []).
Proof.
  destruct (sanitize_all_rejects sanitize_url startUrls u Hin Hbad) as [u' [Hu' [Hb Hs]]].
  exists u'. unfold addCorpusSource. rewrite Hs. auto.
Qed.

Lemma addCorpusSource_invalid_url_witness :
  exists u', In u' ["https://fixie.ai/docs"; "fixie.ai"] /\ demo_sanitize u' = None /\
    addCorpusSource true (fun _ => None) demo_sanitize (mkClient "https://app.fixie.ai" (Some "k"))
      "c1" ["https://fixie.ai/docs"; "fixie.ai"] None None None None None
    = (Rejected (InvalidUrl u'), []).
Proof.
  apply (addCorpusSource_invalid_url true (fun _ => None) demo_sanitize
           (mkClient "https://app.fixie.ai" (Some "k")) "c1" ["https://fixie.ai/docs"; "fixie.ai"]
           None None None None None "fixie.ai").
  - right; left; reflexivity.
  - reflexivity.
Defined.

(** When every start URL is accepted, [addCorpusSource] POSTs to the
    corpus's sources, the corpus id appears at the top and in [source], and
    [start_urls] holds the sanitized URLs in order. *)
Theorem addCorpusSource_start_urls debug fetch sanitize_url c corpusId startUrls
  includeGlobs excludeGlobs maxDocuments maxDepth description
  (Hok : forall u, In u startUrls -> sanitize_url u <> None) :
  exists r body sanitized,
    fetches (snd (addCorpusSource debug fetch sanitize_url c corpusId startUrls includeGlobs
                    excludeGlobs maxDocuments maxDepth description)) = [r] /\
    req_method r = "POST" /\ req_url r = url c ++ "/api/v1/corpora/" ++ corpusId ++ "/sources" /\
    req_body r = Some body /\
    json_at ["corpus_id"] body = Some (JsonStr corpusId) /\
    json_at ["source"; "corpus_id"] body = Some (JsonStr corpusId) /\
    map Some sanitized = map sanitize_url startUrls /\
    json_at ["source"; "load_spec"; "web"; "start_urls"] body =
      Some (JsonArr (map JsonStr sanitized)).
Proof.
  destruct (sanitize_all_resolves sanitize_url startUrls Hok) as [l [Hl Hs]].
  unfold addCorpusSource. rewrite Hs.
  remember (JArr (map JStr l)) as arr eqn:Harr.
  assert (Hj : stringify arr = Some (JsonArr (map JsonStr l)))
    by (subst arr; apply stringify_strs).
  clear Harr.
  rewrite fetches_request.
  destruct description, maxDocuments;
    (eexists; eexists; exists l; split; [reflexivity|]);
    simpl; rewrite Hj; repeat split; (reflexivity || exact Hl).
Qed.

Lemma addCorpusSource_start_urls_witness :
  exists r body sanitized,
    fetches (snd (addCorpusSource false (fun _ => None) demo_sanitize
                    (mkClient "https://app.fixie.ai" (Some "k")) "c1"
                    ["https://fixie.ai/docs"; "https://fixie.ai/blog"] None None (Some 10%Z) None
                    (Some "docs"))) = [r] /\
    req_method r = "POST" /\ req_url r = "https://app.fixie.ai" ++ "/api/v1/corpora/" ++ "c1" ++ "/sources" /\
    req_body r = Some body /\
    json_at ["corpus_id"] body = Some (JsonStr "c1") /\
    json_at ["source"; "corpus_id"] body = Some (JsonStr "c1") /\
    map Some sanitized = map demo_sanitize ["https://fixie.ai/docs"; "https://fixie.ai/blog"] /\
    json_at ["source"; "load_spec"; "web"; "start_urls"] body =
      Some (JsonArr (map JsonStr sanitized)).
Proof.
  apply (addCorpusSource_start_urls false (fun _ => None) demo_sanitize
           (mkClient "https://app.fixie.ai" (Some "k")) "c1"
           ["https://fixie.ai/docs"; "https://fixie.ai/blog"] None None (Some 10%Z) None
           (Some "docs")).
  intros u Hu. simpl in Hu.
  destruct Hu as [<-|[<-|[]]]; vm_compute; discriminate.
Defined.

End FixieFacts.
